(** * Easy3D: spline curve interpolation (easy3d/core/spline_curve_interpolation.h)

    A shallow embedding of the class template [SplineCurveInterpolation<Point_t>]
    and theorems about it.

    - The template parameters are type classes: [Real_t] is the scalar type
      [Point_t::FT], [PointType] is what the code asks of [Point_t]
      (default construction, [dimension()], [operator[]], [distance]).
    - [std::vector] is [list]; [v[i]] is a lookup, [v[i] = x] is stdpp's
      list insert.  A read out of range is the failure [OutOfRange].
    - The build modelled is the debug build: [assert(c)] with [c] false is
      the failure [AssertionFailed], which ends the run.
    - Scalars are exact: rounding, infinities and NaN are not modelled. *)

From stdpp Require Import base numbers option list.

Local Open Scope Z_scope.
Local Open Scope nat_scope.

(* ================================================================= *)
(** ** Failures and the loops of the source *)

Inductive failure := AssertionFailed | OutOfRange.

Inductive result (A : Type) :=
  | Ok (a : A)
  | Err (e : failure).
Arguments Ok {A} a.
Arguments Err {A} e.

Global Instance result_ret : MRet result := fun A a => Ok a.
Global Instance result_bind : MBind result := fun A B f r =>
  match r with
  | Ok a => f a
  | Err e => Err e
  end.

(** [assert(c)] of <cassert>, debug build. *)
Definition assert (c : bool) : result unit :=
  if c then Ok tt else Err AssertionFailed.

(** [for (i ...) body] over the indices [idx], with a body that may fail. *)
Fixpoint for_loop {A : Type} (body : A -> nat -> result A) (a : A) (idx : list nat)
  : result A :=
  match idx with
  | [] => Ok a
  | i :: idx' => a' ← body a i; for_loop body a' idx'
  end.

(* ================================================================= *)
(** ** The template parameters *)

(** [Point_t::FT]: the literals [0.0] and [1], [+], [*] and the order. *)
Class Real_t (FT : Type) := {
  FT0 : FT;
  FT1 : FT;
  FTadd : FT -> FT -> FT;
  FTmul : FT -> FT -> FT;
  FTle : FT -> FT -> Prop;
}.

(** What the code uses of [Point_t]: [Point_t p;], [p.dimension()],
    reading [p[j]], writing [p[j] = v], and [distance(p, q)]. *)
Class PointType (FT Point_t : Type) := {
  Point_new : Point_t;
  dimension : Point_t -> nat;
  coord : Point_t -> nat -> FT;
  set_coord : Point_t -> nat -> FT -> Point_t;
  distance : Point_t -> Point_t -> FT;
}.

(** The usual laws of a fixed-dimension vector type. *)
Class PointLaws (FT Point_t : Type) `{!PointType FT Point_t} : Prop := {
  coord_set_coord_eq : forall (p : Point_t) i v,
    i < dimension p -> coord (set_coord p i v) i = v;
  coord_set_coord_ne : forall (p : Point_t) i j v,
    i <> j -> coord (set_coord p i v) j = coord p j;
  dimension_set_coord : forall (p : Point_t) i v,
    dimension (set_coord p i v) = dimension p;
  dimension_fixed : forall p q : Point_t, dimension p = dimension q;
  point_ext : forall p q : Point_t,
    (forall j, j < dimension p -> coord p j = coord q j) -> p = q;
}.

(* ================================================================= *)
(** ** The scalar solver, [SplineInterpolation<FT>] *)

Module SplineInterpolation.

Inductive BoundaryType := first_deriv | second_deriv.

(** What [set_data] was given. *)
Record Fit (FT : Type) := {
  x_ : list FT;
  y_ : list FT;
  cubic_spline_ : bool;
}.
Arguments x_ {FT} _.
Arguments y_ {FT} _.
Arguments cubic_spline_ {FT} _.

(** Modelled from the spec: easy3d/core/spline_interpolation.h is not among
    the sources.  A solver holds the boundary conditions it was configured
    with and, once fitted, the parameters and samples it was fitted on. *)
Record t (FT : Type) := {
  left_ : BoundaryType;
  right_ : BoundaryType;
  left_value_ : FT;
  right_value_ : FT;
  linear_extrapolation_ : bool;
  fit_ : option (Fit FT);
}.
Arguments left_ {FT} _.
Arguments right_ {FT} _.
Arguments left_value_ {FT} _.
Arguments right_value_ {FT} _.
Arguments linear_extrapolation_ {FT} _.
Arguments fit_ {FT} _.

Definition fitted {FT : Type} (sol : t FT) : bool :=
  match fit_ sol with
  | Some _ => true
  | None => false
  end.

Section Solver.
Context {FT : Type} `{!Real_t FT}.

(** Modelled from the spec: a default-constructed solver has the natural
    boundary condition (second derivative 0) at both ends, no linear
    extrapolation, and is not fitted. *)
Definition new : t FT :=
  {| left_ := second_deriv; right_ := second_deriv;
     left_value_ := FT0; right_value_ := FT0;
     linear_extrapolation_ := false; fit_ := None |}.

(** Modelled from the spec: "configure(left_kind, left_value, right_kind,
    right_value, linear_extrapolation) - must be callable before fitting;
    calling after fitting is a precondition violation on the solver's
    part, mirroring the Curve Interpolator's own rule", a precondition
    violation being an assertion failure in a debug build. *)
Definition set_boundary (sol : t FT)
    (left : BoundaryType) (left_value : FT)
    (right : BoundaryType) (right_value : FT)
    (linear_extrapolation : bool) : result (t FT) :=
  _ ← assert (negb (fitted sol));
  Ok {| left_ := left; right_ := right;
        left_value_ := left_value; right_value_ := right_value;
        linear_extrapolation_ := linear_extrapolation;
        fit_ := fit_ sol |}.

(** Modelled from the spec: "fit(parameters, samples, cubic: bool) - fits
    the scalar function; replaces any prior fit". *)
Definition set_data (sol : t FT) (x y : list FT) (cubic_spline : bool) : t FT :=
  {| left_ := left_ sol; right_ := right_ sol;
     left_value_ := left_value_ sol; right_value_ := right_value_ sol;
     linear_extrapolation_ := linear_extrapolation_ sol;
     fit_ := Some {| x_ := x; y_ := y; cubic_spline_ := cubic_spline |} |}.
End Solver.

End SplineInterpolation.

(** The two parts of the solver that the curve code uses and the missing
    header decides: [operator()], the value of the fitted function at a
    parameter, and the default of the third argument of [set_data], which
    the call [set_data(T, coords[i])] leaves out. *)
Class Solver (FT : Type) := {
  spline_eval : SplineInterpolation.t FT -> FT -> FT;
  set_data_default_cubic_spline : bool;
}.

(** A solver that reproduces its samples: at every parameter it was fitted
    on, it returns the sample given with it. *)
Definition interpolating {FT : Type} `{!Solver FT} (sol : SplineInterpolation.t FT) : Prop :=
  forall f i x y,
    SplineInterpolation.fit_ sol = Some f ->
    SplineInterpolation.x_ f !! i = Some x ->
    SplineInterpolation.y_ f !! i = Some y ->
    spline_eval sol x = y.

(* ================================================================= *)
(** ** The curve, [SplineCurveInterpolation<Point_t>] *)

Module SplineCurveInterpolation.

Inductive BoundaryType := first_deriv | second_deriv.

Record t (FT : Type) := {
  left_ : BoundaryType;
  right_ : BoundaryType;
  left_value_ : FT;
  right_value_ : FT;
  linear_extrapolation_ : bool;
  dim_ : nat;
  interpolators_ : list (SplineInterpolation.t FT);
  total_length_ : FT;
}.
Arguments left_ {FT} _.
Arguments right_ {FT} _.
Arguments left_value_ {FT} _.
Arguments right_value_ {FT} _.
Arguments linear_extrapolation_ {FT} _.
Arguments dim_ {FT} _.
Arguments interpolators_ {FT} _.
Arguments total_length_ {FT} _.

(** The locals [t], [T] and [coords] of [set_points]. *)
Record tables (FT : Type) := {
  tb_t : FT;
  tb_T : list FT;
  tb_coords : list (list FT);
}.
Arguments tb_t {FT} _.
Arguments tb_T {FT} _.
Arguments tb_coords {FT} _.

Section Curve.
Context {FT Point_t : Type} `{!Real_t FT} `{!PointType FT Point_t} `{!Solver FT}.

(** The constructor. *)
Definition new : t FT :=
  {| left_ := second_deriv; right_ := second_deriv;
     left_value_ := FT0; right_value_ := FT0;
     linear_extrapolation_ := false; dim_ := 0;
     interpolators_ := []; total_length_ := FT0 |}.

Definition set_boundary (s : t FT)
    (left : BoundaryType) (left_value : FT)
    (right : BoundaryType) (right_value : FT)
    (linear_extrapolation : bool) : result (t FT) :=
  _ ← assert (bool_decide (length (interpolators_ s) = 0));
  Ok {| left_ := left; right_ := right;
        left_value_ := left_value; right_value_ := right_value;
        linear_extrapolation_ := linear_extrapolation;
        dim_ := dim_ s; interpolators_ := interpolators_ s;
        total_length_ := total_length_ s |}.

(** [for (j = 0; j < dim_; ++j) coords[j][i] = p[j];] *)
Definition fill_coords (p : Point_t) (i dim : nat) (coords : list (list FT))
  : list (list FT) :=
  foldl (fun cs j => alter (fun row => <[i := coord p j]> row) j cs)
        coords (seq 0 dim).

(** The body of the loop over the points, at index [i]. *)
Definition sample_step (points : list Point_t) (dim : nat)
    (st : tables FT) (i : nat) : tables FT :=
  let p := nth i points Point_new in
  let t := if bool_decide (0 < i)
           then FTadd (tb_t st) (distance (nth (i - 1) points Point_new) p)
           else tb_t st in
  {| tb_t := t;
     tb_T := <[i := t]> (tb_T st);
     tb_coords := fill_coords p i dim (tb_coords st) |}.

(** [T], [coords] and [t] after the loop over the points. *)
Definition sample_points (points : list Point_t) (dim : nat) : tables FT :=
  foldl (sample_step points dim)
        {| tb_t := FT0;
           tb_T := replicate (length points) FT0;
           tb_coords := replicate dim (replicate (length points) FT0) |}
        (seq 0 (length points)).

(** [b == first_deriv ? SplineInterpolation<FT>::first_deriv
                       : SplineInterpolation<FT>::second_deriv] *)
Definition solver_kind (b : BoundaryType) : SplineInterpolation.BoundaryType :=
  match b with
  | first_deriv => SplineInterpolation.first_deriv
  | _ => SplineInterpolation.second_deriv
  end.

(** The body of the loop over the axes, at index [i]. *)
Definition fit_axis (s : t FT) (cubic_spline : bool)
    (T : list FT) (coords : list (list FT))
    (ints : list (SplineInterpolation.t FT)) (i : nat)
  : result (list (SplineInterpolation.t FT)) :=
  match ints !! i, coords !! i with
  | Some sol, Some row =>
      sol' ← SplineInterpolation.set_boundary sol
               (solver_kind (left_ s)) (left_value_ s)
               (solver_kind (right_ s)) (right_value_ s)
               cubic_spline;
      Ok (<[i := SplineInterpolation.set_data sol' T row
                   set_data_default_cubic_spline]> ints)
  | _, _ => Err OutOfRange
  end.

Definition set_points (s : t FT) (points : list Point_t) (cubic_spline : bool)
  : result (t FT) :=
  match points with
  | [] => Ok s
  | p0 :: _ =>
      let dim := dimension p0 in
      let tb := sample_points points dim in
      ints ← for_loop (fit_axis s cubic_spline (tb_T tb) (tb_coords tb))
                      (resize dim SplineInterpolation.new (interpolators_ s))
                      (seq 0 dim);
      Ok {| left_ := left_ s; right_ := right_ s;
            left_value_ := left_value_ s; right_value_ := right_value_ s;
            linear_extrapolation_ := linear_extrapolation_ s;
            dim_ := dim; interpolators_ := ints;
            total_length_ := tb_t tb |}
  end.

(** The body of the loop of [eval_f], at index [i]. *)
Definition eval_axis (s : t FT) (u : FT) (p : Point_t) (i : nat) : result Point_t :=
  match interpolators_ s !! i with
  | Some sol => Ok (set_coord p i (spline_eval sol (FTmul u (total_length_ s))))
  | None => Err OutOfRange
  end.

Definition eval_f (s : t FT) (u : FT) : result Point_t :=
  for_loop (eval_axis s u) Point_new (seq 0 (dim_ s)).

End Curve.

End SplineCurveInterpolation.


(* ================================================================= *)
(** ** The fit in closed form *)

Section Closed.
Context {FT Point_t : Type} `{!Real_t FT} `{!PointType FT Point_t} `{!Solver FT}.

(** The parameterization in the words of the specification:
    parameter[0] = 0, parameter[i] = parameter[i-1] + distance(point[i-1], point[i]). *)
Fixpoint parameter (points : list Point_t) (i : nat) : FT :=
  match i with
  | 0 => FT0
  | S i' => FTadd (parameter points i')
                  (distance (nth i' points Point_new) (nth i points Point_new))
  end.

Definition parameterization (points : list Point_t) : list FT :=
  parameter points <$> seq 0 (length points).

(** The sequence of the [j]-th coordinates of the points. *)
Definition axis (points : list Point_t) (j : nat) : list FT :=
  (fun p => coord p j) <$> points.

(** The locals of [set_points] after the first [k] rounds of the loop over
    the points. *)
Definition sampled (points : list Point_t) (dim k : nat) : SplineCurveInterpolation.tables FT :=
  foldl (SplineCurveInterpolation.sample_step points dim)
        {| SplineCurveInterpolation.tb_t := FT0;
           SplineCurveInterpolation.tb_T := replicate (length points) FT0;
           SplineCurveInterpolation.tb_coords := replicate dim (replicate (length points) FT0) |}
        (seq 0 k).

(** The solver that the loop over the axes leaves at an index: configured
    from the curve [s] and the flag [cubic_spline], fitted on [T] and [row]. *)
Definition axis_solver (s : SplineCurveInterpolation.t FT) (cubic_spline : bool)
    (T row : list FT) : SplineInterpolation.t FT :=
  {| SplineInterpolation.left_ :=
       SplineCurveInterpolation.solver_kind (SplineCurveInterpolation.left_ s);
     SplineInterpolation.right_ :=
       SplineCurveInterpolation.solver_kind (SplineCurveInterpolation.right_ s);
     SplineInterpolation.left_value_ := SplineCurveInterpolation.left_value_ s;
     SplineInterpolation.right_value_ := SplineCurveInterpolation.right_value_ s;
     SplineInterpolation.linear_extrapolation_ := cubic_spline;
     SplineInterpolation.fit_ :=
       Some {| SplineInterpolation.x_ := T;
               SplineInterpolation.y_ := row;
               SplineInterpolation.cubic_spline_ := set_data_default_cubic_spline |} |}.

(** The curve that a successful [set_points] on a non-empty sequence leaves. *)
Definition fitted_curve (s : SplineCurveInterpolation.t FT)
    (points : list Point_t) (cubic_spline : bool) : SplineCurveInterpolation.t FT :=
  let dim := dimension (nth 0 points Point_new) in
  {| SplineCurveInterpolation.left_ := SplineCurveInterpolation.left_ s;
     SplineCurveInterpolation.right_ := SplineCurveInterpolation.right_ s;
     SplineCurveInterpolation.left_value_ := SplineCurveInterpolation.left_value_ s;
     SplineCurveInterpolation.right_value_ := SplineCurveInterpolation.right_value_ s;
     SplineCurveInterpolation.linear_extrapolation_ :=
       SplineCurveInterpolation.linear_extrapolation_ s;
     SplineCurveInterpolation.dim_ := dim;
     SplineCurveInterpolation.interpolators_ :=
       (fun j => axis_solver s cubic_spline (parameterization points) (axis points j))
         <$> seq 0 dim;
     SplineCurveInterpolation.total_length_ := parameter points (length points - 1) |}.

(** No solver that [set_points] would configure has been fitted before. *)
Definition refittable (s : SplineCurveInterpolation.t FT) (dim : nat) : bool :=
  forallb (fun sol => negb (SplineInterpolation.fitted sol))
          (take dim (SplineCurveInterpolation.interpolators_ s)).

(** Two curve objects that are the same up to the stored
    [linear_extrapolation_]. *)
Definition same_but_flag (s1 s2 : SplineCurveInterpolation.t FT) : Prop :=
  SplineCurveInterpolation.left_ s1 = SplineCurveInterpolation.left_ s2 /\
  SplineCurveInterpolation.right_ s1 = SplineCurveInterpolation.right_ s2 /\
  SplineCurveInterpolation.left_value_ s1 = SplineCurveInterpolation.left_value_ s2 /\
  SplineCurveInterpolation.right_value_ s1 = SplineCurveInterpolation.right_value_ s2 /\
  SplineCurveInterpolation.dim_ s1 = SplineCurveInterpolation.dim_ s2 /\
  SplineCurveInterpolation.interpolators_ s1 = SplineCurveInterpolation.interpolators_ s2 /\
  SplineCurveInterpolation.total_length_ s1 = SplineCurveInterpolation.total_length_ s2.

(** The number of solvers is the stored dimension. *)
Definition solvers_match (s : SplineCurveInterpolation.t FT) : Prop :=
  length (SplineCurveInterpolation.interpolators_ s) = SplineCurveInterpolation.dim_ s.

(** The distances between consecutive points, in order. *)
Definition chords (points : list Point_t) : list FT :=
  zip_with distance points (drop 1 points).

End Closed.

(* ================================================================= *)
(** ** Call sequences *)

(** A call of one of the three member functions, with its arguments. *)
Inductive call (FT Point_t : Type) :=
  | CallSetBoundary (left : SplineCurveInterpolation.BoundaryType) (left_value : FT)
                    (right : SplineCurveInterpolation.BoundaryType) (right_value : FT)
                    (linear_extrapolation : bool)
  | CallSetPoints (points : list Point_t) (cubic_spline : bool)
  | CallEvalF (u : FT).
Arguments CallSetBoundary {FT Point_t} _ _ _ _ _.
Arguments CallSetPoints {FT Point_t} _ _.
Arguments CallEvalF {FT Point_t} _.

(** Two calls that are the same up to the [linear_extrapolation] argument
    of [set_boundary]. *)
Inductive same_but_extrapolation {FT Point_t : Type} : relation (call FT Point_t) :=
  | sbe_set_boundary l lv r rv le1 le2 :
      same_but_extrapolation (CallSetBoundary l lv r rv le1) (CallSetBoundary l lv r rv le2)
  | sbe_set_points pts c :
      same_but_extrapolation (CallSetPoints pts c) (CallSetPoints pts c)
  | sbe_eval_f u :
      same_but_extrapolation (CallEvalF u) (CallEvalF u).

Section Calls.
Context {FT Point_t : Type} `{!Real_t FT} `{!PointType FT Point_t} `{!Solver FT}.

(** One call: the object afterwards and the point returned, if any. *)
Definition step (s : SplineCurveInterpolation.t FT) (c : call FT Point_t)
  : result (SplineCurveInterpolation.t FT * option Point_t) :=
  match c with
  | CallSetBoundary l lv r rv le =>
      s' ← SplineCurveInterpolation.set_boundary s l lv r rv le; Ok (s', None)
  | CallSetPoints pts cubic =>
      s' ← SplineCurveInterpolation.set_points s pts cubic; Ok (s', None)
  | CallEvalF u =>
      p ← SplineCurveInterpolation.eval_f s u; Ok (s, Some p)
  end.

(** The object after a sequence of calls, or the failure that ended it. *)
Fixpoint exec (s : SplineCurveInterpolation.t FT) (cs : list (call FT Point_t))
  : result (SplineCurveInterpolation.t FT) :=
  match cs with
  | [] => Ok s
  | c :: cs' => r ← step s c; exec r.1 cs'
  end.

(** What a caller sees of a sequence of calls: the points returned by the
    calls of [eval_f], in order, and the failure that ended the run, if any. *)
Fixpoint run (s : SplineCurveInterpolation.t FT) (cs : list (call FT Point_t))
  : list Point_t * option failure :=
  match cs with
  | [] => ([], None)
  | c :: cs' =>
      match step s c with
      | Ok (s', out) => let r := run s' cs' in (option_list out ++ r.1, r.2)
      | Err e => ([], Some e)
      end
  end.

End Calls.

(* ================================================================= *)
(** ** An instance: points of the integer plane *)

Global Instance Z_Real_t : Real_t Z :=
  {| FT0 := 0%Z; FT1 := 1%Z; FTadd := Z.add; FTmul := Z.mul; FTle := Z.le |}.

(** Points with two integer coordinates and the taxicab distance. *)
Global Instance grid_PointType : PointType Z (Z * Z) :=
  {| Point_new := (0%Z, 0%Z);
     dimension := fun _ => 2;
     coord := fun p j => match j with 0 => p.1 | 1 => p.2 | _ => 0%Z end;
     set_coord := fun p j v => match j with 0 => (v, p.2) | 1 => (p.1, v) | _ => p end;
     distance := fun p q => (Z.abs (q.1 - p.1) + Z.abs (q.2 - p.2))%Z |}.

(** The samples joined by straight segments (with integer division), and
    continued by the first and the last sample outside of them. *)
Fixpoint segments (x y : list Z) (t : Z) : Z :=
  match x, y with
  | x0 :: x', y0 :: y' =>
      match x', y' with
      | x1 :: _, y1 :: _ =>
          if (t <=? x0)%Z then y0
          else if (t <? x1)%Z then (y0 + (t - x0) * (y1 - y0) / (x1 - x0))%Z
          else segments x' y' t
      | _, _ => y0
      end
  | _, _ => 0%Z
  end.

(** A solver for the instance.  Its value joins the samples by straight
    segments, whatever the mode and the boundary conditions; the default of
    the mode of [set_data] is cubic. *)
Global Instance segment_Solver : Solver Z :=
  {| spline_eval := fun sol t =>
       match SplineInterpolation.fit_ sol with
       | Some f => segments (SplineInterpolation.x_ f) (SplineInterpolation.y_ f) t
       | None => 0%Z
       end;
     set_data_default_cubic_spline := true |}.

(** The three points of the example, and points that all coincide. *)
Definition corner : list (Z * Z) := [(0, 0); (1, 0); (1, 1)]%Z.
Definition path : list (Z * Z) := [(0, 0); (3, 0); (3, 4)]%Z.
Definition stay : list (Z * Z) := [(5, 7); (5, 7); (5, 7)]%Z.

(** An object that holds boundary conditions other than the default ones,
    and one with the same boundary conditions and other values elsewhere. *)
Definition clamped : SplineCurveInterpolation.t Z :=
  {| SplineCurveInterpolation.left_ := SplineCurveInterpolation.first_deriv;
     SplineCurveInterpolation.right_ := SplineCurveInterpolation.second_deriv;
     SplineCurveInterpolation.left_value_ := 2%Z;
     SplineCurveInterpolation.right_value_ := 3%Z;
     SplineCurveInterpolation.linear_extrapolation_ := true;
     SplineCurveInterpolation.dim_ := 0;
     SplineCurveInterpolation.interpolators_ := [];
     SplineCurveInterpolation.total_length_ := 0%Z |}.

(* ================================================================= *)
(** * Properties *)

Import SplineCurveInterpolation.

Section Loops.
Context {A : Type}.

Lemma for_loop_app (body : A -> nat -> result A) (a : A) (l1 l2 : list nat) :
  for_loop body a (l1 ++ l2) = a' ← for_loop body a l1; for_loop body a' l2.
Proof.
  revert a. induction l1 as [|i l1 IH]; intros a; simpl; [done|].
  destruct (body a i) as [a'|e]; simpl; [apply IH|done].
Qed.

Lemma for_loop_snoc (body : A -> nat -> result A) (a : A) (n : nat) :
  for_loop body a (seq 0 (S n)) = a' ← for_loop body a (seq 0 n); body a' n.
Proof.
  rewrite seq_S, for_loop_app. simpl.
  destruct (for_loop body a (seq 0 n)) as [a'|e]; simpl; [|done].
  by destruct (body a' n).
Qed.

End Loops.

(* ----------------------------------------------------------------- *)
(** ** The loop over the points *)

Section Sampling.
Context {FT Point_t : Type} `{!Real_t FT} `{!PointType FT Point_t}.

Lemma fill_coords_length (p : Point_t) i dim (coords : list (list FT)) :
  length (fill_coords p i dim coords) = length coords.
Proof.
  unfold fill_coords. induction dim as [|d IH]; [done|].
  rewrite seq_S, foldl_snoc. simpl. by rewrite length_alter.
Qed.

Lemma fill_coords_lookup (p : Point_t) i dim (coords : list (list FT)) j :
  fill_coords p i dim coords !! j =
  if bool_decide (j < dim) then (fun row => <[i := coord p j]> row) <$> coords !! j
  else coords !! j.
Proof.
  unfold fill_coords. induction dim as [|d IH].
  - case_bool_decide; [lia|done].
  - rewrite seq_S, foldl_snoc. cbn [Nat.add].
    destruct (decide (j = d)) as [->|Hne].
    + rewrite list_lookup_alter_eq, IH.
      repeat case_bool_decide; try lia. done.
    + rewrite list_lookup_alter_ne by done. rewrite IH.
      repeat case_bool_decide; try lia; done.
Qed.

Lemma sampled_spec (points : list Point_t) (dim k : nat) :
  k <= length points ->
  tb_t (sampled points dim k) = parameter points (k - 1) /\
  tb_T (sampled points dim k) =
    (parameter points <$> seq 0 k) ++ replicate (length points - k) FT0 /\
  length (tb_coords (sampled points dim k)) = dim /\
  forall j, j < dim ->
    tb_coords (sampled points dim k) !! j =
      Some (axis (take k points) j ++ replicate (length points - k) FT0).
Proof.
  unfold sampled. induction k as [|k IH]; intros Hk.
  - simpl. rewrite Nat.sub_0_r. split_and!; [done|done|by rewrite length_replicate|].
    intros j Hj. by rewrite lookup_replicate_2.
  - destruct IH as (Ht & HT & Hlen & Hco); [lia|].
    rewrite seq_S, foldl_snoc. simpl.
    set (st := foldl _ _ _) in *.
    assert (Hp : points !! k = Some (nth k points Point_new)).
    { rewrite nth_lookup. destruct (lookup_lt_is_Some_2 points k) as [q ->]; [lia|done]. }
    assert (Hpar : (if bool_decide (0 < k)
                    then FTadd (tb_t st) (distance (nth (k - 1) points Point_new)
                                                    (nth k points Point_new))
                    else tb_t st) = parameter points k).
    { rewrite Ht. destruct k as [|k']; [done|].
      rewrite bool_decide_eq_true_2 by lia. simpl. by rewrite Nat.sub_0_r. }
    assert (Hrep : replicate (length points - k) FT0
                   = FT0 :: replicate (length points - S k) FT0).
    { replace (length points - k) with (S (length points - S k)) by lia. done. }
    rewrite Nat.sub_0_r. split_and!.
    + done.
    + rewrite Hpar, HT, Hrep, fmap_app. simpl.
      rewrite <- (assoc_L (++)). simpl.
      rewrite insert_app_r_alt by (rewrite length_fmap, length_seq; lia).
      rewrite length_fmap, length_seq, Nat.sub_diag. done.
    + by rewrite fill_coords_length.
    + intros j Hj. rewrite fill_coords_lookup, bool_decide_eq_true_2 by done.
      rewrite Hco by done. simpl. f_equal.
      rewrite (take_S_r _ _ _ Hp). unfold axis. rewrite fmap_app. simpl.
      rewrite Hrep, <- (assoc_L (++)). simpl.
      rewrite insert_app_r_alt by (rewrite length_fmap, length_take; lia).
      rewrite length_fmap, length_take.
      replace (k - k `min` length points) with 0 by lia. done.
Qed.

Lemma sample_points_t (points : list Point_t) dim :
  tb_t (sample_points points dim) = parameter points (length points - 1).
Proof. by apply (sampled_spec points dim (length points)). Qed.

Lemma sample_points_T (points : list Point_t) dim :
  tb_T (sample_points points dim) = parameterization points.
Proof.
  destruct (sampled_spec points dim (length points)) as (_ & HT & _); [done|].
  unfold sample_points, sampled in *. rewrite HT, Nat.sub_diag. simpl.
  by rewrite (right_id_L [] (++)).
Qed.

Lemma sample_points_coords (points : list Point_t) dim :
  tb_coords (sample_points points dim) = axis points <$> seq 0 dim.
Proof.
  destruct (sampled_spec points dim (length points)) as (_ & _ & Hlen & Hco); [done|].
  unfold sample_points, sampled in *.
  apply list_eq. intros j. rewrite list_lookup_fmap.
  destruct (decide (j < dim)) as [Hj|Hj].
  - rewrite Hco by done. rewrite lookup_seq_lt by done. simpl.
    rewrite firstn_all, Nat.sub_diag. simpl. by rewrite (right_id_L [] (++)).
  - rewrite lookup_seq_ge by lia. simpl. apply lookup_ge_None. lia.
Qed.

End Sampling.

(* ----------------------------------------------------------------- *)
(** ** The loop over the axes, and [set_points] in closed form *)

Section Fitting.
Context {FT Point_t : Type} `{!Real_t FT} `{!PointType FT Point_t} `{!Solver FT}.

Local Abbreviation unfitted := (fun sol : SplineInterpolation.t FT =>
                                  negb (SplineInterpolation.fitted sol)).

Lemma fit_axis_unfitted (s : t FT) c T coords ints i sol row :
  ints !! i = Some sol -> coords !! i = Some row ->
  SplineInterpolation.fitted sol = false ->
  fit_axis s c T coords ints i = Ok (<[i := axis_solver s c T row]> ints).
Proof.
  intros Hi Hr Hf. unfold fit_axis, SplineInterpolation.set_boundary.
  rewrite Hi, Hr, Hf. reflexivity.
Qed.

Lemma fit_axis_fitted (s : t FT) c T coords ints i sol row :
  ints !! i = Some sol -> coords !! i = Some row ->
  SplineInterpolation.fitted sol = true ->
  fit_axis s c T coords ints i = Err AssertionFailed.
Proof.
  intros Hi Hr Hf. unfold fit_axis, SplineInterpolation.set_boundary.
  rewrite Hi, Hr, Hf. reflexivity.
Qed.

Lemma forallb_snoc {B : Type} (f : B -> bool) (l : list B) (b : B) :
  forallb f (l ++ [b]) = forallb f l && f b.
Proof. rewrite forallb_app. simpl. by rewrite andb_true_r. Qed.

Lemma fit_loop_spec (s : t FT) c T (rows : nat -> list FT) dim ints k :
  k <= dim -> length ints = dim ->
  for_loop (fit_axis s c T (rows <$> seq 0 dim)) ints (seq 0 k) =
  if forallb unfitted (take k ints)
  then Ok (((fun j => axis_solver s c T (rows j)) <$> seq 0 k) ++ drop k ints)
  else Err AssertionFailed.
Proof.
  intros Hk Hlen. induction k as [|k IH]; [by rewrite drop_0|].
  rewrite for_loop_snoc, IH by lia.
  destruct (lookup_lt_is_Some_2 ints k) as [sol Hsol]; [lia|].
  rewrite (take_S_r _ _ _ Hsol), forallb_snoc.
  destruct (forallb unfitted (take k ints)); [|done]. cbn [andb mbind result_bind].
  assert (Hlk : length ((fun j => axis_solver s c T (rows j)) <$> seq 0 k) = k)
    by (by rewrite length_fmap, length_seq).
  assert (Hrow : (rows <$> seq 0 dim) !! k = Some (rows k)).
  { rewrite list_lookup_fmap, lookup_seq_lt by lia. done. }
  assert (Hcur : (((fun j => axis_solver s c T (rows j)) <$> seq 0 k) ++ drop k ints) !! k
                 = Some sol).
  { rewrite lookup_app_r by lia. rewrite Hlk, Nat.sub_diag, lookup_drop.
    by rewrite Nat.add_0_r. }
  destruct (SplineInterpolation.fitted sol) eqn:Hf; cbn [negb].
  - by rewrite (fit_axis_fitted _ _ _ _ _ _ _ _ Hcur Hrow Hf).
  - rewrite (fit_axis_unfitted _ _ _ _ _ _ _ _ Hcur Hrow Hf). f_equal.
    rewrite insert_app_r_alt by lia. rewrite Hlk, Nat.sub_diag.
    rewrite (drop_S _ _ _ Hsol), seq_S, fmap_app, <- (assoc_L (++)). done.
Qed.

Lemma forallb_unfitted_resize dim (ints : list (SplineInterpolation.t FT)) :
  forallb unfitted (take dim (resize dim SplineInterpolation.new ints)) =
  forallb unfitted (take dim ints).
Proof.
  rewrite take_ge by (by rewrite length_resize).
  rewrite resize_spec, forallb_app.
  replace (forallb unfitted (replicate (dim - length ints) SplineInterpolation.new))
    with true; [by rewrite andb_true_r|].
  induction (dim - length ints) as [|n IH]; [done|]. simpl. done.
Qed.

(** [set_points] on a non-empty sequence: the assertion of the solver fails
    when one of the solvers kept by [resize] has been fitted before, and
    otherwise the object is [fitted_curve]. *)
Lemma set_points_cons (s : t FT) (p0 : Point_t) rest c :
  set_points s (p0 :: rest) c =
  if refittable s (dimension p0)
  then Ok (fitted_curve s (p0 :: rest) c)
  else Err AssertionFailed.
Proof.
  unfold set_points, refittable.
  rewrite sample_points_t, sample_points_T, sample_points_coords.
  rewrite fit_loop_spec by (by rewrite ?length_resize).
  rewrite forallb_unfitted_resize.
  destruct (forallb _ _); [|done]. simpl.
  rewrite drop_ge by (by rewrite length_resize).
  by rewrite (right_id_L [] (++)).
Qed.

Lemma set_points_nil (s : t FT) c : set_points s ([] : list Point_t) c = Ok s.
Proof. done. Qed.

Lemma refittable_new dim : refittable (FT := FT) new dim = true.
Proof. unfold refittable. simpl. by rewrite take_nil. Qed.

(** The first fit of a new object returns. *)
Lemma set_points_new (points : list Point_t) c :
  points <> [] ->
  set_points new points c = Ok (fitted_curve new points c).
Proof.
  intros Hne. destruct points as [|p0 rest]; [done|].
  by rewrite set_points_cons, refittable_new.
Qed.

Lemma set_points_inv (s s' : t FT) (points : list Point_t) c :
  points <> [] -> set_points s points c = Ok s' ->
  s' = fitted_curve s points c.
Proof.
  intros Hne Hset. destruct points as [|p0 rest]; [done|].
  rewrite set_points_cons in Hset.
  destruct (refittable s (dimension p0)); congruence.
Qed.

End Fitting.

(* ----------------------------------------------------------------- *)
(** ** The loop of [eval_f] *)

Section Evaluation.
Context {FT Point_t : Type} `{!Real_t FT} `{!PointType FT Point_t} `{!Solver FT}.

Lemma eval_loop_total (s : t FT) u (p : Point_t) k :
  k <= length (interpolators_ s) ->
  exists q, for_loop (eval_axis s u) p (seq 0 k) = Ok q.
Proof.
  induction k as [|k IH]; intros Hk; [by exists p|].
  destruct IH as [q Hq]; [lia|].
  rewrite for_loop_snoc, Hq. cbn [mbind result_bind]. unfold eval_axis.
  destruct (lookup_lt_is_Some_2 (interpolators_ s) k) as [sol ->]; [lia|].
  eauto.
Qed.

Lemma eval_f_total (s : t FT) u :
  length (interpolators_ s) = dim_ s ->
  exists q : Point_t, eval_f s u = Ok q.
Proof. intros Hlen. apply eval_loop_total. lia. Qed.

Context `{!PointLaws FT Point_t}.

Lemma eval_loop_coord (s : t FT) u (p q : Point_t) k :
  k <= dimension p ->
  for_loop (eval_axis s u) p (seq 0 k) = Ok q ->
  dimension q = dimension p /\
  (forall j sol, j < k -> interpolators_ s !! j = Some sol ->
     coord q j = spline_eval sol (FTmul u (total_length_ s))) /\
  (forall j, k <= j -> coord q j = coord p j).
Proof.
  revert q. induction k as [|k IH]; intros q Hk Hq.
  - simpl in Hq. injection Hq as <-. split_and!; [done|intros; lia|done].
  - rewrite for_loop_snoc in Hq.
    destruct (for_loop (eval_axis s u) p (seq 0 k)) as [q'|e]; [|done].
    destruct (IH q') as (Hd & Hlt & Hge); [lia|done|].
    cbn [mbind result_bind] in Hq. unfold eval_axis in Hq.
    destruct (interpolators_ s !! k) as [sol|] eqn:Hsol; [|done].
    injection Hq as <-. split_and!.
    + by rewrite dimension_set_coord.
    + intros j sol' Hj Hsol'. destruct (decide (j = k)) as [->|Hne].
      * rewrite coord_set_coord_eq by lia. congruence.
      * rewrite coord_set_coord_ne by done. apply Hlt; [lia|done].
    + intros j Hj. rewrite coord_set_coord_ne by lia. apply Hge. lia.
Qed.

(** When every solver of a fitted curve returns the coordinate of [p] at
    the parameter [u * total_length_], [eval_f] returns [p]. *)
Lemma eval_f_fitted_curve (s : t FT) (points : list Point_t) c u (p : Point_t) :
  (forall j, j < dimension p ->
     spline_eval (axis_solver s c (parameterization points) (axis points j))
                 (FTmul u (total_length_ (fitted_curve s points c))) = coord p j) ->
  eval_f (fitted_curve s points c) u = Ok p.
Proof.
  intros Hsol. set (s' := fitted_curve s points c) in *.
  assert (Hdim : dim_ s' = dimension p) by apply dimension_fixed.
  assert (Hlen : length (interpolators_ s') = dim_ s').
  { unfold s'. simpl. by rewrite length_fmap, length_seq. }
  destruct (eval_f_total s' u Hlen) as [q Hq]. rewrite Hq. f_equal.
  destruct (eval_loop_coord s' u Point_new q (dim_ s')) as (Hd & Hlt & _).
  { rewrite Hdim. by rewrite (dimension_fixed Point_new p). }
  { exact Hq. }
  apply point_ext. intros j Hj.
  rewrite Hd, (dimension_fixed Point_new p) in Hj.
  rewrite <- Hsol by done. apply Hlt; [lia|].
  unfold s'. simpl. rewrite list_lookup_fmap, lookup_seq_lt; [done|].
  change (j < dim_ s'). lia.
Qed.

End Evaluation.

(* ================================================================= *)
(** * The claims *)

Section Empty.
Context {FT Point_t : Type} `{!Real_t FT} `{!PointType FT Point_t} `{!Solver FT}.

(** C6: [set_points] on an empty sequence of points returns normally and
    leaves the whole object as it was: boundary conditions, dimension,
    total length and solvers. *)
Theorem set_points_empty_noop (s : t FT) (cubic_spline : bool) :
  set_points s ([] : list Point_t) cubic_spline = Ok s.
Proof. reflexivity. Qed.

End Empty.

Section Endpoints.
Context {FT Point_t : Type} `{!Real_t FT} `{!PointType FT Point_t} `{!Solver FT}.
Context `{!PointLaws FT Point_t}.
Hypothesis FTmul_0_l : forall x : FT, FTmul FT0 x = FT0.
Hypothesis FTmul_1_l : forall x : FT, FTmul FT1 x = x.

(** C4: after a successful [set_points] on a non-empty sequence, and with
    solvers that reproduce their samples, [eval_f(0)] is the first point and
    [eval_f(1)] is the last point. *)
Theorem eval_f_endpoints (s s' : t FT) (points : list Point_t) (cubic_spline : bool)
    (first final : Point_t) :
  head points = Some first ->
  last points = Some final ->
  set_points s points cubic_spline = Ok s' ->
  (forall sol, sol ∈ interpolators_ s' -> interpolating sol) ->
  eval_f s' FT0 = Ok first /\ eval_f s' FT1 = Ok final.
Proof.
  intros Hfirst Hfinal Hset Hint.
  assert (Hne : points <> []) by (by destruct points).
  apply set_points_inv in Hset; [|done]. subst s'.
  assert (Hsol : forall j, j < dimension (nth 0 points Point_new) ->
            interpolating (axis_solver s cubic_spline (parameterization points)
                                       (axis points j))).
  { intros j Hj. apply Hint. simpl. apply list_elem_of_fmap. exists j.
    split; [done|]. apply elem_of_seq. lia. }
  assert (Hlen : 0 < length points) by (destruct points; [done|simpl; lia]).
  split; apply eval_f_fitted_curve; intros j Hj.
  - rewrite FTmul_0_l.
    eapply (Hsol j) with (i := 0); [|done|..].
    + by rewrite (dimension_fixed _ first).
    + unfold parameterization. simpl.
      rewrite list_lookup_fmap, lookup_seq_lt by done. done.
    + unfold axis. simpl. rewrite list_lookup_fmap.
      rewrite <- head_lookup, Hfirst. done.
  - rewrite FTmul_1_l.
    eapply (Hsol j) with (i := length points - 1); [|done|..].
    + by rewrite (dimension_fixed _ final).
    + unfold parameterization. simpl.
      rewrite list_lookup_fmap, lookup_seq_lt by lia. done.
    + unfold axis. simpl. rewrite list_lookup_fmap.
      rewrite last_lookup in Hfinal.
      replace (length points - 1) with (pred (length points)) by lia.
      by rewrite Hfinal.
Qed.

End Endpoints.

(** The integers and the points of the integer plane satisfy the laws. *)
Lemma grid_PointLaws : PointLaws Z (Z * Z).
Proof.
  split.
  - intros p [|[|i]] v Hi; simpl in *; [done|done|lia].
  - intros [a b] [|[|i]] [|[|j]] v Hij; simpl; done.
  - done.
  - done.
  - intros [a b] [c d] Hj. simpl in Hj.
    pose proof (Hj 0 ltac:(lia)) as H0. pose proof (Hj 1 ltac:(lia)) as H1.
    simpl in *. congruence.
Qed.

Lemma path_solvers_interpolating (sol : SplineInterpolation.t Z) :
  sol ∈ interpolators_ (fitted_curve new path true) -> interpolating sol.
Proof.
  intros Hin. apply list_elem_of_In in Hin. simpl in Hin.
  destruct Hin as [<-|[<-|[]]]; intros f i x y Hf Hx Hy;
    injection Hf as <-; destruct i as [|[|[|i]]]; simpl in *;
    simplify_eq; reflexivity.
Qed.

Lemma eval_f_endpoints_witness :
  eval_f (fitted_curve new path true) 0%Z = Ok (0, 0)%Z /\
  eval_f (fitted_curve new path true) 1%Z = Ok (3, 4)%Z.
Proof.
  apply (eval_f_endpoints (Real_t0 := Z_Real_t) (PointLaws0 := grid_PointLaws)
           Z.mul_0_l Z.mul_1_l
           new (fitted_curve new path true) path true (0, 0)%Z (3, 4)%Z).
  - reflexivity.
  - reflexivity.
  - reflexivity.
  - exact path_solvers_interpolating.
Defined.

Section Coincident.
Context {FT Point_t : Type} `{!Real_t FT} `{!PointType FT Point_t} `{!Solver FT}.
Context `{!PointLaws FT Point_t}.
Hypothesis distance_self : forall p : Point_t, distance p p = FT0.
Hypothesis FTadd_0_0 : FTadd FT0 FT0 = FT0.
Hypothesis FTmul_0_r : forall u : FT, FTmul u FT0 = FT0.

Lemma parameter_replicate (p : Point_t) n i :
  i < n -> parameter (replicate n p) i = FT0.
Proof.
  induction i as [|i IH]; intros Hi; [done|]. simpl.
  rewrite IH by lia.
  rewrite !nth_lookup, !lookup_replicate_2 by lia. simpl.
  by rewrite distance_self.
Qed.

(** C8: fitting a non-empty sequence of points that all coincide with [p]
    gives the total length 0; then [eval_f(u)] returns normally, with every
    coordinate the value of its solver at the parameter 0, and it returns
    [p] when the solvers reproduce their samples. *)
Theorem eval_f_coincident (s s' : t FT) (p : Point_t) (n : nat) (cubic_spline : bool) :
  set_points s (replicate (S n) p) cubic_spline = Ok s' ->
  total_length_ s' = FT0 /\
  forall u : FT,
    FTmul u (total_length_ s') = FT0 /\
    (exists q, eval_f s' u = Ok q /\
       forall j sol, interpolators_ s' !! j = Some sol ->
                     coord q j = spline_eval sol FT0) /\
    ((forall sol, sol ∈ interpolators_ s' -> interpolating sol) ->
     eval_f s' u = Ok p).
Proof.
  intros Hset. apply set_points_inv in Hset; [|done]. subst s'.
  set (points := replicate (S n) p).
  assert (Htotal : total_length_ (fitted_curve s points cubic_spline) = FT0).
  { unfold fitted_curve. cbn [total_length_]. unfold points.
    rewrite length_replicate. apply parameter_replicate. lia. }
  split; [done|]. intros u. rewrite Htotal, FTmul_0_r. split_and!; [done|..].
  - set (s' := fitted_curve s points cubic_spline) in *.
    assert (Hlen : length (interpolators_ s') = dim_ s').
    { unfold s'. simpl. by rewrite length_fmap, length_seq. }
    destruct (eval_f_total s' u Hlen) as [q Hq]. exists q. split; [done|].
    destruct (eval_loop_coord s' u Point_new q (dim_ s')) as (_ & Hlt & _).
    { unfold s'. simpl. by rewrite (dimension_fixed Point_new (nth 0 points Point_new)). }
    { exact Hq. }
    intros j sol Hsol. rewrite (Hlt j sol); [|  |done].
    + by rewrite Htotal, FTmul_0_r.
    + apply lookup_lt_Some in Hsol. lia.
  - intros Hint. apply eval_f_fitted_curve. intros j Hj.
    rewrite Htotal, FTmul_0_r.
    eapply (Hint _) with (i := 0); [|done|..].
    + simpl. apply list_elem_of_fmap. exists j. split; [done|].
      apply elem_of_seq. lia.
    + done.
    + done.
Qed.

End Coincident.

Lemma stay_solvers_interpolating (sol : SplineInterpolation.t Z) :
  sol ∈ interpolators_ (fitted_curve new stay true) -> interpolating sol.
Proof.
  intros Hin. apply list_elem_of_In in Hin. simpl in Hin.
  destruct Hin as [<-|[<-|[]]]; intros f i x y Hf Hx Hy;
    injection Hf as <-; destruct i as [|[|[|i]]]; simpl in *;
    simplify_eq; reflexivity.
Qed.

Lemma eval_f_coincident_witness :
  total_length_ (fitted_curve new stay true) = 0%Z /\
  eval_f (fitted_curve new stay true) 9%Z = Ok (5, 7)%Z.
Proof.
  destruct (eval_f_coincident (Real_t0 := Z_Real_t) (PointLaws0 := grid_PointLaws)
              (fun p : Z * Z => ltac:(simpl; lia)) eq_refl Z.mul_0_r
              new (fitted_curve new stay true) (5, 7)%Z 2 true eq_refl)
    as [Htotal Heval].
  split; [exact Htotal|].
  exact (proj2 (proj2 (Heval 9%Z)) stay_solvers_interpolating).
Defined.

Section Parameterization.
Context {FT Point_t : Type} `{!Real_t FT} `{!PointType FT Point_t} `{!Solver FT}.
Hypothesis distance_nonneg : forall p q : Point_t, FTle FT0 (distance p q).
Hypothesis FTle_add_nonneg : forall t d : FT, FTle FT0 d -> FTle t (FTadd t d).

Lemma parameterization_lookup (points : list Point_t) i :
  i < length points -> parameterization points !! i = Some (parameter points i).
Proof.
  intros Hi. unfold parameterization.
  rewrite list_lookup_fmap, lookup_seq_lt by done. done.
Qed.

Lemma parameterization_length (points : list Point_t) :
  length (parameterization points) = length points.
Proof. unfold parameterization. by rewrite length_fmap, length_seq. Qed.

(** C5: the sequence [T] that [set_points] computes from a non-empty
    sequence of points, and fits every solver on, has one entry per point,
    starts at 0, grows from each entry to the next by the distance between
    the two points, is non-decreasing, and ends with the stored total
    length. *)
Theorem chord_length_parameterization (s s' : t FT) (points : list Point_t)
    (cubic_spline : bool) :
  points <> [] ->
  set_points s points cubic_spline = Ok s' ->
  let T := tb_T (sample_points points (dimension (nth 0 points Point_new))) in
  (forall sol, sol ∈ interpolators_ s' ->
     exists f, SplineInterpolation.fit_ sol = Some f /\ SplineInterpolation.x_ f = T) /\
  length T = length points /\
  T !! 0 = Some FT0 /\
  (forall i p q, points !! i = Some p -> points !! S i = Some q ->
     exists a, T !! i = Some a /\ T !! S i = Some (FTadd a (distance p q))) /\
  (forall i a b, T !! i = Some a -> T !! S i = Some b -> FTle a b) /\
  last T = Some (total_length_ s').
Proof.
  intros Hne Hset T. apply set_points_inv in Hset; [|done]. subst s'.
  assert (HT : T = parameterization points) by apply sample_points_T.
  assert (Hlen : 0 < length points) by (destruct points; [done|simpl; lia]).
  rewrite HT. clear T HT. split_and!.
  - intros sol Hin. simpl in Hin. apply list_elem_of_fmap in Hin as (j & -> & _).
    eexists. split; reflexivity.
  - apply parameterization_length.
  - by rewrite parameterization_lookup.
  - intros i p q Hp Hq. exists (parameter points i).
    pose proof (lookup_lt_Some _ _ _ Hq) as Hi.
    rewrite !parameterization_lookup by lia. split; [done|]. simpl.
    by rewrite !nth_lookup, Hp, Hq.
  - intros i a b Ha Hb.
    pose proof (lookup_lt_Some _ _ _ Hb) as Hi.
    rewrite parameterization_length in Hi.
    rewrite parameterization_lookup in Ha, Hb by lia.
    injection Ha as <-. injection Hb as <-. simpl.
    apply FTle_add_nonneg, distance_nonneg.
  - rewrite last_lookup, parameterization_length.
    rewrite parameterization_lookup by lia. simpl. do 2 f_equal. lia.
Qed.

End Parameterization.

Lemma grid_distance_nonneg (p q : Z * Z) : FTle FT0 (distance p q).
Proof. simpl. lia. Qed.

Lemma Z_le_add_nonneg (t d : Z) : FTle FT0 d -> FTle t (FTadd t d).
Proof. simpl. lia. Qed.

Lemma chord_length_parameterization_witness :
  let T := tb_T (sample_points path 2) in
  (forall sol, sol ∈ interpolators_ (fitted_curve new path true) ->
     exists f, SplineInterpolation.fit_ sol = Some f /\ SplineInterpolation.x_ f = T) /\
  length T = 3 /\
  T !! 0 = Some 0%Z /\
  (forall i p q, path !! i = Some p -> path !! S i = Some q ->
     exists a, T !! i = Some a /\ T !! S i = Some (a + distance p q)%Z) /\
  (forall i a b, T !! i = Some a -> T !! S i = Some b -> (a <= b)%Z) /\
  last T = Some 7%Z.
Proof.
  assert (Hne : path <> []) by discriminate.
  exact (chord_length_parameterization (Real_t0 := Z_Real_t)
           grid_distance_nonneg Z_le_add_nonneg
           new (fitted_curve new path true) path true Hne eq_refl).
Defined.

Section Preconditions.
Context {FT Point_t : Type} `{!Real_t FT} `{!PointType FT Point_t} `{!Solver FT}.

Lemma fitted_curve_solvers_length (s : t FT) (points : list Point_t) c :
  length (interpolators_ (fitted_curve s points c))
  = dimension (nth 0 points Point_new).
Proof. simpl. by rewrite length_fmap, length_seq. Qed.

Lemma refittable_fitted_curve (s : t FT) (points : list Point_t) c dim :
  0 < dimension (nth 0 points Point_new) -> 0 < dim ->
  refittable (fitted_curve s points c) dim = false.
Proof.
  intros Hd Hdim. unfold refittable, fitted_curve. cbn [interpolators_].
  destruct (dimension (nth 0 points Point_new)) as [|d]; [lia|].
  destruct dim as [|dim]; [lia|]. reflexivity.
Qed.

(** C3, as amended: in a debug build, [set_boundary] after [set_points] has
    fitted a non-empty sequence of points of dimension at least 1 fails on
    its assertion; [eval_f] checks nothing: on an object that has not been
    fitted, where [dim_] is still 0, it returns the default-constructed
    point. *)
Theorem precondition_checks (s s' s0 : t FT) (points : list Point_t) (cubic_spline : bool)
    (left : BoundaryType) (left_value : FT) (right : BoundaryType) (right_value : FT)
    (linear_extrapolation : bool) (u : FT) :
  points <> [] ->
  0 < dimension (nth 0 points Point_new) ->
  set_points s points cubic_spline = Ok s' ->
  dim_ s0 = 0 ->
  set_boundary s' left left_value right right_value linear_extrapolation
    = Err AssertionFailed /\
  eval_f (Point_t := Point_t) s0 u = Ok Point_new.
Proof.
  intros Hne Hdim Hset Hs0. split.
  - apply set_points_inv in Hset; [|done]. subst s'.
    unfold set_boundary. rewrite fitted_curve_solvers_length.
    rewrite bool_decide_eq_false_2 by lia. reflexivity.
  - unfold eval_f. rewrite Hs0. reflexivity.
Qed.

(** C7: a second [set_points] on a non-empty sequence, after a first one
    that fitted points of dimension at least 1, does not replace the fit: it
    configures again the solvers that [resize] kept, which are fitted, and
    ends on the assertion of the solver. *)
Theorem set_points_twice_fails (s s1 : t FT) (points1 points2 : list Point_t)
    (cubic1 cubic2 : bool) :
  points1 <> [] -> points2 <> [] ->
  0 < dimension (nth 0 points1 Point_new) ->
  0 < dimension (nth 0 points2 Point_new) ->
  set_points s points1 cubic1 = Ok s1 ->
  set_points s1 points2 cubic2 = Err AssertionFailed.
Proof.
  intros Hne1 Hne2 Hd1 Hd2 Hset.
  apply set_points_inv in Hset; [|done]. subst s1.
  destruct points2 as [|p0 rest]; [done|].
  rewrite set_points_cons, refittable_fitted_curve; done.
Qed.

End Preconditions.

(** [eval_f] before any fit is no assertion failure: it returns a point. *)
Lemma eval_f_before_fit_returns :
  eval_f (Point_t := Z * Z) new 5%Z = Ok (0, 0)%Z /\
  eval_f (Point_t := Z * Z) new 5%Z <> Err AssertionFailed.
Proof. split; [reflexivity|discriminate]. Qed.

Lemma precondition_checks_witness :
  set_boundary (fitted_curve new path true) first_deriv 1%Z first_deriv 1%Z false
    = Err AssertionFailed /\
  eval_f (Point_t := Z * Z) new 5%Z = Ok (0, 0)%Z.
Proof.
  assert (Hne : path <> []) by discriminate.
  assert (Hdim : 0 < dimension (nth 0 path Point_new)) by (simpl; lia).
  exact (precondition_checks new (fitted_curve new path true) new path true
           first_deriv 1%Z first_deriv 1%Z false 5%Z Hne Hdim eq_refl eq_refl).
Defined.

Lemma set_points_twice_fails_witness :
  set_points new path true = Ok (fitted_curve new path true) /\
  set_points (fitted_curve new path true) corner true = Err AssertionFailed.
Proof.
  split; [reflexivity|].
  assert (Hne1 : path <> []) by discriminate.
  assert (Hne2 : corner <> []) by discriminate.
  assert (Hd1 : 0 < dimension (nth 0 path Point_new)) by (simpl; lia).
  assert (Hd2 : 0 < dimension (nth 0 corner Point_new)) by (simpl; lia).
  exact (set_points_twice_fails new (fitted_curve new path true) path corner
           true true Hne1 Hne2 Hd1 Hd2 eq_refl).
Defined.

Section Flags.
Context {FT Point_t : Type} `{!Real_t FT} `{!PointType FT Point_t} `{!Solver FT}.

Lemma fitted_curve_solver (s : t FT) (points : list Point_t) c j sol :
  interpolators_ (fitted_curve s points c) !! j = Some sol ->
  sol = axis_solver s c (parameterization points) (axis points j).
Proof.
  simpl. rewrite list_lookup_fmap. intros Hsol.
  destruct (seq 0 (dimension (nth 0 points Point_new)) !! j) as [j'|] eqn:Hj; [|done].
  apply lookup_seq in Hj as [-> _]. simpl in Hsol. congruence.
Qed.

(** C1: what [set_points] gives each solver.  The boundary kinds and values
    are the stored ones and the fit is on [T] and the coordinates of the
    axis; but the extrapolation setting of the solver is the argument
    [cubic_spline], not the stored [linear_extrapolation_], and the mode of
    the fit is the default of [set_data], not [cubic_spline]. *)
Theorem set_points_solver_arguments (s s' : t FT) (points : list Point_t)
    (cubic_spline : bool) (j : nat) (sol : SplineInterpolation.t FT) :
  points <> [] ->
  set_points s points cubic_spline = Ok s' ->
  interpolators_ s' !! j = Some sol ->
  SplineInterpolation.left_ sol = solver_kind (left_ s) /\
  SplineInterpolation.left_value_ sol = left_value_ s /\
  SplineInterpolation.right_ sol = solver_kind (right_ s) /\
  SplineInterpolation.right_value_ sol = right_value_ s /\
  SplineInterpolation.linear_extrapolation_ sol = cubic_spline /\
  SplineInterpolation.fit_ sol =
    Some {| SplineInterpolation.x_ :=
              tb_T (sample_points points (dimension (nth 0 points Point_new)));
            SplineInterpolation.y_ := axis points j;
            SplineInterpolation.cubic_spline_ := set_data_default_cubic_spline |}.
Proof.
  intros Hne Hset Hsol. apply set_points_inv in Hset; [|done]. subst s'.
  apply fitted_curve_solver in Hsol. subst sol.
  rewrite sample_points_T. by split_and!.
Qed.

(** C2: the request for a linear fit does not reach the fit.  From the same
    object and points, [set_points] with [cubic_spline = false] and with
    [cubic_spline = true] leave the same dimension and total length and
    solvers fitted on the same data in the same mode, the default of
    [set_data]; [false] only becomes the extrapolation setting. *)
Theorem linear_request_not_forwarded (s s_lin s_cub : t FT) (points : list Point_t) :
  points <> [] ->
  set_points s points false = Ok s_lin ->
  set_points s points true = Ok s_cub ->
  dim_ s_lin = dim_ s_cub /\
  total_length_ s_lin = total_length_ s_cub /\
  SplineInterpolation.fit_ <$> interpolators_ s_lin
    = SplineInterpolation.fit_ <$> interpolators_ s_cub /\
  forall sol, sol ∈ interpolators_ s_lin ->
    SplineInterpolation.linear_extrapolation_ sol = false /\
    exists f, SplineInterpolation.fit_ sol = Some f /\
              SplineInterpolation.cubic_spline_ f = set_data_default_cubic_spline.
Proof.
  intros Hne Hlin Hcub.
  apply set_points_inv in Hlin; [|done]. apply set_points_inv in Hcub; [|done].
  subst s_lin s_cub. split_and!; [done|done|..].
  - simpl. rewrite <- !list_fmap_compose. done.
  - intros sol Hin. apply list_elem_of_lookup in Hin as [j Hj].
    apply fitted_curve_solver in Hj. subst sol. split; [done|].
    eexists. split; reflexivity.
Qed.

End Flags.

(** An object whose stored [linear_extrapolation_] is set. *)
Lemma set_boundary_stores_flag :
  set_boundary (FT := Z) new first_deriv 2%Z second_deriv 3%Z true
  = Ok {| left_ := first_deriv; right_ := second_deriv;
          left_value_ := 2%Z; right_value_ := 3%Z;
          linear_extrapolation_ := true; dim_ := 0;
          interpolators_ := []; total_length_ := 0%Z |}.
Proof. reflexivity. Qed.

Lemma set_points_solver_arguments_witness :
  let s := {| left_ := first_deriv; right_ := second_deriv;
              left_value_ := 2%Z; right_value_ := 3%Z;
              linear_extrapolation_ := true; dim_ := 0;
              interpolators_ := []; total_length_ := 0%Z |} in
  let sol := axis_solver s false [0; 1; 2]%Z [0; 1; 1]%Z in
  SplineInterpolation.left_ sol = SplineInterpolation.first_deriv /\
  SplineInterpolation.left_value_ sol = 2%Z /\
  SplineInterpolation.right_ sol = SplineInterpolation.second_deriv /\
  SplineInterpolation.right_value_ sol = 3%Z /\
  SplineInterpolation.linear_extrapolation_ sol = false /\
  SplineInterpolation.fit_ sol =
    Some {| SplineInterpolation.x_ := [0; 1; 2]%Z;
            SplineInterpolation.y_ := [0; 1; 1]%Z;
            SplineInterpolation.cubic_spline_ := true |}.
Proof.
  intros s sol.
  assert (Hne : corner <> []) by discriminate.
  exact (set_points_solver_arguments s (fitted_curve s corner false) corner false
           0 sol Hne eq_refl eq_refl).
Defined.

Lemma linear_request_not_forwarded_witness :
  let s_lin := fitted_curve new corner false in
  let s_cub := fitted_curve new corner true in
  dim_ s_lin = dim_ s_cub /\
  total_length_ s_lin = total_length_ s_cub /\
  SplineInterpolation.fit_ <$> interpolators_ s_lin
    = SplineInterpolation.fit_ <$> interpolators_ s_cub /\
  forall sol, sol ∈ interpolators_ s_lin ->
    SplineInterpolation.linear_extrapolation_ sol = false /\
    exists f, SplineInterpolation.fit_ sol = Some f /\
              SplineInterpolation.cubic_spline_ f = true.
Proof.
  intros s_lin s_cub.
  assert (Hne : corner <> []) by discriminate.
  exact (linear_request_not_forwarded new s_lin s_cub corner Hne eq_refl eq_refl).
Defined.

Section Sequences.
Context {FT Point_t : Type} `{!Real_t FT} `{!PointType FT Point_t} `{!Solver FT}.

Lemma same_but_flag_refl (s : t FT) : same_but_flag s s.
Proof. by repeat split. Qed.

Lemma same_but_flag_eval_f (s1 s2 : t FT) (u : FT) :
  same_but_flag s1 s2 -> eval_f (Point_t := Point_t) s1 u = eval_f s2 u.
Proof.
  destruct s1, s2. unfold same_but_flag. simpl.
  intros (-> & -> & -> & -> & -> & -> & ->). reflexivity.
Qed.

Lemma same_but_flag_set_points (s1 s2 : t FT) (points : list Point_t) c :
  same_but_flag s1 s2 ->
  match set_points s1 points c, set_points s2 points c with
  | Ok s1', Ok s2' => same_but_flag s1' s2'
  | Err e1, Err e2 => e1 = e2
  | _, _ => False
  end.
Proof.
  intros Hs. destruct points as [|p0 rest]; [done|].
  rewrite !set_points_cons.
  destruct s1, s2. unfold same_but_flag in Hs. simpl in Hs.
  destruct Hs as (-> & -> & -> & -> & -> & -> & ->).
  unfold refittable. cbn [interpolators_].
  destruct (forallb _ _); [|done]. by repeat split.
Qed.

Lemma same_but_flag_set_boundary (s1 s2 : t FT) l lv r rv le1 le2 :
  same_but_flag s1 s2 ->
  match set_boundary s1 l lv r rv le1, set_boundary s2 l lv r rv le2 with
  | Ok s1', Ok s2' => same_but_flag s1' s2'
  | Err e1, Err e2 => e1 = e2
  | _, _ => False
  end.
Proof.
  destruct s1, s2. unfold same_but_flag, set_boundary. simpl.
  intros (-> & -> & -> & -> & -> & -> & ->).
  destruct (bool_decide _); simpl; [by repeat split|done].
Qed.

Lemma same_but_flag_run (cs1 cs2 : list (call FT Point_t)) :
  Forall2 same_but_extrapolation cs1 cs2 ->
  forall s1 s2, same_but_flag s1 s2 -> run s1 cs1 = run s2 cs2.
Proof.
  induction 1 as [|c1 c2 cs1 cs2 Hc _ IH]; intros s1 s2 Hs; [done|].
  destruct Hc as [l lv r rv le1 le2|pts c|u]; simpl.
  - pose proof (same_but_flag_set_boundary s1 s2 l lv r rv le1 le2 Hs) as Hb.
    destruct (set_boundary s1 l lv r rv le1) as [s1'|e1],
             (set_boundary s2 l lv r rv le2) as [s2'|e2]; simpl; try done.
    + by rewrite (IH s1' s2').
    + by subst.
  - pose proof (same_but_flag_set_points s1 s2 pts c Hs) as Hp.
    destruct (set_points s1 pts c) as [s1'|e1],
             (set_points s2 pts c) as [s2'|e2]; simpl; try done.
    + by rewrite (IH s1' s2').
    + by subst.
  - rewrite (same_but_flag_eval_f s1 s2 u Hs).
    destruct (eval_f s2 u) as [p|e]; simpl; [|done].
    by rewrite (IH s1 s2).
Qed.

(** C9: two sequences of calls on a new object that are the same up to the
    [linear_extrapolation] arguments of their calls of [set_boundary] show
    the same: the same points from the calls of [eval_f], and the same
    failure, if any. *)
Theorem linear_extrapolation_never_observed (cs1 cs2 : list (call FT Point_t)) :
  Forall2 same_but_extrapolation cs1 cs2 ->
  run new cs1 = run new cs2.
Proof. intros Hcs. apply same_but_flag_run; [done|apply same_but_flag_refl]. Qed.

Lemma set_points_not_out_of_range (s : t FT) (points : list Point_t) c :
  set_points s points c <> Err OutOfRange.
Proof.
  destruct points as [|p0 rest]; [done|]. rewrite set_points_cons.
  by destruct (refittable _ _).
Qed.

Lemma step_solvers_match (s : t FT) (c : call FT Point_t) :
  solvers_match s ->
  step s c <> Err OutOfRange /\
  forall s' out, step s c = Ok (s', out) -> solvers_match s'.
Proof.
  intros Hs. destruct c as [l lv r rv le|pts c|u]; simpl.
  - unfold set_boundary. destruct (bool_decide _); simpl; split; try done.
    intros s' out [= <- _]. exact Hs.
  - pose proof (set_points_not_out_of_range s pts c) as Hno.
    destruct (set_points s pts c) as [s1|e] eqn:Hset; simpl; split; try done.
    + intros s' out [= <- _]. destruct pts as [|p0 rest].
      * injection Hset as <-. exact Hs.
      * apply set_points_inv in Hset; [|done]. subst s1.
        apply fitted_curve_solvers_length.
    + congruence.
  - destruct (eval_f_total (Point_t := Point_t) s u Hs) as [q ->]. simpl.
    split; [done|]. intros s' out [= <- _]. exact Hs.
Qed.

Lemma exec_solvers_match (cs : list (call FT Point_t)) (s : t FT) :
  solvers_match s ->
  exec s cs <> Err OutOfRange /\
  forall s', exec s cs = Ok s' -> solvers_match s'.
Proof.
  revert s. induction cs as [|c cs IH]; intros s Hs; simpl.
  - split; [done|]. by intros s' [= <-].
  - destruct (step_solvers_match s c Hs) as [Hno Hstep].
    destruct (step s c) as [[s1 out]|e]; simpl.
    + apply IH. by eapply Hstep.
    + split; [congruence|done].
Qed.

(** C10: on a new object the number of solvers is the stored dimension;
    from an object where it is, no sequence of calls reads the solvers out
    of range, and after a sequence that returns it is so again, so that then
    [eval_f] returns a point. *)
Theorem solvers_match_dimension (s : t FT) (cs : list (call FT Point_t)) :
  solvers_match (new (FT := FT)) /\
  (solvers_match s ->
   exec s cs <> Err OutOfRange /\
   forall s', exec s cs = Ok s' ->
     length (interpolators_ s') = dim_ s' /\
     forall u, exists p : Point_t, eval_f s' u = Ok p).
Proof.
  split; [done|]. intros Hs.
  destruct (exec_solvers_match cs s Hs) as [Hno Hinv].
  split; [done|]. intros s' Hs'. split; [by apply Hinv|].
  intros u. apply eval_f_total. by apply Hinv.
Qed.

End Sequences.

Lemma linear_extrapolation_never_observed_witness :
  run new [CallSetBoundary first_deriv 2%Z second_deriv 3%Z true;
           CallSetPoints path true; CallEvalF 1%Z; CallEvalF 2%Z]
  = run new [CallSetBoundary first_deriv 2%Z second_deriv 3%Z false;
             CallSetPoints path true; CallEvalF 1%Z; CallEvalF 2%Z].
Proof.
  apply linear_extrapolation_never_observed.
  repeat constructor.
Defined.

Lemma solvers_match_dimension_witness :
  exec new [CallSetPoints path true; CallEvalF 1%Z] <> Err OutOfRange /\
  length (interpolators_ (fitted_curve new path true)) = 2 /\
  exists p : Z * Z, eval_f (fitted_curve new path true) 3%Z = Ok p.
Proof.
  destruct (solvers_match_dimension new [CallSetPoints path true; CallEvalF 1%Z])
    as [Hnew Hcs].
  destruct (Hcs Hnew) as [Hno Hinv].
  split; [exact Hno|].
  destruct (Hinv (fitted_curve new path true) eq_refl) as [Hlen Heval].
  split; [exact Hlen|exact (Heval 3%Z)].
Defined.

(* ================================================================= *)
(** * Further properties of the code *)

(* ----------------------------------------------------------------- *)
(** ** The parameters computed by the loop over the points *)

Section Parameters.
Context {FT Point_t : Type} `{!Real_t FT} `{!PointType FT Point_t}.

Lemma sample_points_T_lookup (points : list Point_t) dim i a :
  tb_T (sample_points points dim) !! i = Some a <->
  i < length points /\ a = parameter points i.
Proof.
  rewrite sample_points_T. unfold parameterization. rewrite list_lookup_fmap.
  destruct (decide (i < length points)) as [Hi|Hi].
  - rewrite lookup_seq_lt by done. simpl. split.
    + intros [= <-]. done.
    + intros [_ ->]. done.
  - rewrite lookup_seq_ge by lia. simpl. split; [done|]. intros [? _]. lia.
Qed.

Lemma parameter_step (points : list Point_t) i p q :
  points !! i = Some p -> points !! S i = Some q ->
  parameter points (S i) = FTadd (parameter points i) (distance p q).
Proof. intros Hp Hq. simpl. by rewrite !nth_lookup, Hp, Hq. Qed.

Lemma parameter_app (points extra : list Point_t) i :
  i < length points -> parameter (points ++ extra) i = parameter points i.
Proof.
  induction i as [|i IH]; intros Hi; [done|]. simpl.
  rewrite IH by lia. by rewrite !nth_lookup, !lookup_app_l by lia.
Qed.

(** Appending points leaves the parameters of the points before them as
    they were. *)
Theorem parameters_of_prefix (points extra : list Point_t) (dim dim' : nat) :
  take (length points) (tb_T (sample_points (points ++ extra) dim'))
  = tb_T (sample_points points dim).
Proof.
  rewrite !sample_points_T. unfold parameterization.
  rewrite <- fmap_take, take_seq, length_app.
  replace (length points `min` (length points + length extra)) with (length points) by lia.
  apply list_eq. intros i. rewrite !list_lookup_fmap.
  destruct (decide (i < length points)) as [Hi|Hi].
  - rewrite lookup_seq_lt by done. simpl. by rewrite parameter_app.
  - by rewrite lookup_seq_ge by lia.
Qed.

Lemma chords_lookup (points : list Point_t) i p q :
  points !! i = Some p -> points !! S i = Some q ->
  chords points !! i = Some (distance p q).
Proof.
  intros Hp Hq. unfold chords. rewrite lookup_zip_with, Hp. simpl.
  rewrite lookup_drop. simpl. by rewrite Hq.
Qed.

Lemma parameter_prefix_sum (points : list Point_t) i :
  i < length points ->
  parameter points i = foldl FTadd FT0 (take i (chords points)).
Proof.
  induction i as [|i IH]; intros Hi; [done|].
  destruct (lookup_lt_is_Some_2 points i) as [p Hp]; [lia|].
  destruct (lookup_lt_is_Some_2 points (S i)) as [q Hq]; [lia|].
  rewrite (take_S_r _ _ _ (chords_lookup points i p q Hp Hq)), foldl_snoc.
  rewrite <- IH by lia. by apply parameter_step.
Qed.

(** Every entry of [T] is the sum, from 0 and from the left, of the
    distances between the consecutive points before it, and the final [t],
    which becomes [total_length_], is the sum of all of them. *)
Theorem parameters_are_prefix_sums (points : list Point_t) (dim : nat) :
  (forall i a, tb_T (sample_points points dim) !! i = Some a ->
     a = foldl FTadd FT0 (take i (chords points))) /\
  tb_t (sample_points points dim) = foldl FTadd FT0 (chords points).
Proof.
  split.
  - intros i a [Hi ->]%sample_points_T_lookup. by apply parameter_prefix_sum.
  - rewrite sample_points_t.
    destruct points as [|p0 rest]; [done|].
    rewrite parameter_prefix_sum by (simpl; lia).
    rewrite take_ge; [done|].
    unfold chords. rewrite length_zip_with, length_drop. cbn [length]. lia.
Qed.

End Parameters.

Lemma parameters_are_prefix_sums_witness :
  tb_T (sample_points path 2) !! 2 = Some 7%Z /\
  7%Z = foldl Z.add 0%Z (take 2 (chords path)) /\
  tb_t (sample_points path 2) = foldl Z.add 0%Z [3; 4]%Z.
Proof.
  destruct (parameters_are_prefix_sums path 2) as [HT Ht].
  split; [reflexivity|]. split; [exact (HT 2 7%Z eq_refl)|exact Ht].
Defined.

Section ParameterOrder.
Context {FT Point_t : Type} `{!Real_t FT} `{!PointType FT Point_t}.
Hypothesis FTle_refl : forall a : FT, FTle a a.
Hypothesis FTle_trans : forall a b c : FT, FTle a b -> FTle b c -> FTle a c.
Hypothesis distance_nonneg : forall p q : Point_t, FTle FT0 (distance p q).
Hypothesis FTle_add_nonneg : forall t d : FT, FTle FT0 d -> FTle t (FTadd t d).

Lemma parameter_mono (points : list Point_t) i k :
  i <= k -> FTle (parameter points i) (parameter points k).
Proof.
  induction 1 as [|k _ IH]; [apply FTle_refl|].
  eapply FTle_trans; [exact IH|]. simpl.
  apply FTle_add_nonneg, distance_nonneg.
Qed.

(** Every entry of [T] lies between 0 and the final [t], which becomes
    [total_length_]. *)
Theorem parameters_within_total_length (points : list Point_t) (dim i : nat) (a : FT) :
  tb_T (sample_points points dim) !! i = Some a ->
  FTle FT0 a /\ FTle a (tb_t (sample_points points dim)).
Proof.
  intros [Hi ->]%sample_points_T_lookup. rewrite sample_points_t. split.
  - apply (parameter_mono points 0 i). lia.
  - apply parameter_mono. lia.
Qed.

End ParameterOrder.

Lemma parameters_within_total_length_witness :
  (0 <= 3)%Z /\ (3 <= tb_t (sample_points path 2))%Z.
Proof.
  exact (parameters_within_total_length (Real_t0 := Z_Real_t)
           Z.le_refl Z.le_trans grid_distance_nonneg Z_le_add_nonneg
           path 2 1 3%Z eq_refl).
Defined.

Section ParameterSteps.
Context {FT Point_t : Type} `{!Real_t FT} `{!PointType FT Point_t}.


(** The points are not deduplicated: where two consecutive points are at
    distance 0, [T] repeats the parameter. *)
Theorem coincident_points_repeat_parameter (points : list Point_t) (dim i : nat)
    (p q : Point_t) :
  (forall t : FT, FTadd t FT0 = t) ->
  points !! i = Some p -> points !! S i = Some q ->
  distance p q = FT0 ->
  tb_T (sample_points points dim) !! S i = tb_T (sample_points points dim) !! i /\
  is_Some (tb_T (sample_points points dim) !! i).
Proof.
  intros Hadd Hp Hq Hd.
  pose proof (lookup_lt_Some _ _ _ Hq) as HSi.
  rewrite sample_points_T. unfold parameterization.
  rewrite !list_lookup_fmap, !lookup_seq_lt by lia. simpl. split; [|eauto].
  f_equal. change (parameter points (S i) = parameter points i).
  by rewrite (parameter_step points i p q Hp Hq), Hd, Hadd.
Qed.

End ParameterSteps.




Lemma coincident_points_repeat_parameter_witness :
  tb_T (sample_points stay 2) !! 1 = tb_T (sample_points stay 2) !! 0 /\
  is_Some (tb_T (sample_points stay 2) !! 0).
Proof.
  exact (coincident_points_repeat_parameter (Real_t0 := Z_Real_t) stay 2 0
           (5, 7)%Z (5, 7)%Z Z.add_0_r eq_refl eq_refl eq_refl).
Defined.

(* ----------------------------------------------------------------- *)
(** ** The member functions and how they compose *)

Section Members.
Context {FT Point_t : Type} `{!Real_t FT} `{!PointType FT Point_t} `{!Solver FT}.

(** [set_boundary] returns only on an object without solvers.  It then
    stores its five arguments and leaves [dim_], [interpolators_],
    [total_length_] and what [eval_f] returns as they were; and a later
    [set_boundary] does what it would have done without the earlier one. *)
Theorem set_boundary_effect (s s' : t FT)
    (left : BoundaryType) (left_value : FT) (right : BoundaryType) (right_value : FT)
    (linear_extrapolation : bool) :
  set_boundary s left left_value right right_value linear_extrapolation = Ok s' ->
  interpolators_ s = [] /\
  s' = {| left_ := left; right_ := right;
          left_value_ := left_value; right_value_ := right_value;
          linear_extrapolation_ := linear_extrapolation;
          dim_ := dim_ s; interpolators_ := []; total_length_ := total_length_ s |} /\
  (forall u, eval_f (Point_t := Point_t) s' u = eval_f s u) /\
  (forall l lv r rv le, set_boundary s' l lv r rv le = set_boundary s l lv r rv le).
Proof.
  unfold set_boundary. destruct s as [l0 r0 lv0 rv0 le0 d0 ints0 tl0]. simpl.
  case_bool_decide as Hlen; [|done].
  apply nil_length_inv in Hlen. subst ints0. simpl. intros [= <-].
  split_and!; reflexivity.
Qed.

(** A [set_points] that returns leaves the stored boundary conditions and
    the stored [linear_extrapolation_] as they were, for every sequence of
    points. *)
Theorem set_points_keeps_boundary (s s' : t FT) (points : list Point_t)
    (cubic_spline : bool) :
  set_points s points cubic_spline = Ok s' ->
  left_ s' = left_ s /\ left_value_ s' = left_value_ s /\
  right_ s' = right_ s /\ right_value_ s' = right_value_ s /\
  linear_extrapolation_ s' = linear_extrapolation_ s.
Proof.
  intros Hset. destruct points as [|p0 rest].
  - injection Hset as <-. done.
  - apply set_points_inv in Hset; [|done]. by subst s'.
Qed.



(** After a [set_points] that returns on a non-empty sequence: [dim_] is
    the dimension of the first point, there are [dim_] solvers, and solver
    [j] holds as many parameters and as many samples as there are points,
    sample [i] being coordinate [j] of point [i]. *)
Theorem set_points_samples (s s' : t FT) (points : list Point_t) (cubic_spline : bool) :
  points <> [] ->
  set_points s points cubic_spline = Ok s' ->
  dim_ s' = dimension (nth 0 points Point_new) /\
  length (interpolators_ s') = dim_ s' /\
  forall j sol, interpolators_ s' !! j = Some sol ->
    exists f, SplineInterpolation.fit_ sol = Some f /\
      length (SplineInterpolation.x_ f) = length points /\
      length (SplineInterpolation.y_ f) = length points /\
      forall i p, points !! i = Some p ->
                  SplineInterpolation.y_ f !! i = Some (coord p j).
Proof.
  intros Hne Hset. apply set_points_inv in Hset; [|done]. subst s'.
  split; [done|]. split; [apply fitted_curve_solvers_length|].
  intros j sol Hsol. apply fitted_curve_solver in Hsol. subst sol.
  eexists. split; [reflexivity|]. simpl. split_and!.
  - unfold parameterization. by rewrite length_fmap, length_seq.
  - unfold axis. by rewrite length_fmap.
  - intros i p Hp. unfold axis. by rewrite list_lookup_fmap, Hp.
Qed.


End Members.

Lemma set_boundary_effect_witness :
  interpolators_ (new (FT := Z)) = [] /\
  clamped = {| left_ := first_deriv; right_ := second_deriv;
               left_value_ := 2%Z; right_value_ := 3%Z;
               linear_extrapolation_ := true;
               dim_ := 0; interpolators_ := []; total_length_ := 0%Z |} /\
  (forall u, eval_f (Point_t := Z * Z) clamped u = eval_f new u) /\
  (forall l lv r rv le, set_boundary clamped l lv r rv le = set_boundary new l lv r rv le).
Proof.
  exact (set_boundary_effect (Point_t := Z * Z) new clamped
           first_deriv 2%Z second_deriv 3%Z true eq_refl).
Defined.

Lemma set_points_keeps_boundary_witness :
  let s' := fitted_curve clamped corner false in
  left_ s' = first_deriv /\ left_value_ s' = 2%Z /\
  right_ s' = second_deriv /\ right_value_ s' = 3%Z /\
  linear_extrapolation_ s' = true.
Proof.
  exact (set_points_keeps_boundary clamped (fitted_curve clamped corner false)
           corner false eq_refl).
Defined.


Lemma set_points_samples_witness :
  let s' := fitted_curve new path true in
  dim_ s' = 2 /\
  length (interpolators_ s') = dim_ s' /\
  forall j sol, interpolators_ s' !! j = Some sol ->
    exists f, SplineInterpolation.fit_ sol = Some f /\
      length (SplineInterpolation.x_ f) = 3 /\
      length (SplineInterpolation.y_ f) = 3 /\
      forall i p, path !! i = Some p ->
                  SplineInterpolation.y_ f !! i = Some (coord p j).
Proof.
  assert (Hne : path <> []) by discriminate.
  exact (set_points_samples new (fitted_curve new path true) path true Hne eq_refl).
Defined.


Section Coordinates.
Context {FT Point_t : Type} `{!Real_t FT} `{!PointType FT Point_t} `{!Solver FT}.
Context `{!PointLaws FT Point_t}.

(** On an object with as many solvers as [dim_], and [dim_] within the
    dimension of the point type, [eval_f(u)] returns a point whose
    coordinate [j], for [j < dim_], is the value of solver [j] at
    [u * total_length_], and whose other coordinates are those of a
    default-constructed point. *)
Theorem eval_f_coordinates (s : t FT) (u : FT) :
  length (interpolators_ s) = dim_ s ->
  dim_ s <= dimension (Point_new (Point_t := Point_t)) ->
  exists q : Point_t,
    eval_f s u = Ok q /\
    (forall j sol, interpolators_ s !! j = Some sol ->
       coord q j = spline_eval sol (FTmul u (total_length_ s))) /\
    (forall j, dim_ s <= j -> coord q j = coord (Point_new (Point_t := Point_t)) j).
Proof.
  intros Hlen Hdim. destruct (eval_f_total (Point_t := Point_t) s u Hlen) as [q Hq].
  exists q. split; [done|].
  destruct (eval_loop_coord s u Point_new q (dim_ s) Hdim Hq) as (_ & Hlt & Hge).
  split; [|done]. intros j sol Hsol. apply Hlt; [|done].
  apply lookup_lt_Some in Hsol. lia.
Qed.

End Coordinates.

Lemma eval_f_coordinates_witness :
  exists q : Z * Z,
    eval_f (fitted_curve new path true) 1%Z = Ok q /\
    (forall j sol, interpolators_ (fitted_curve new path true) !! j = Some sol ->
       coord q j = spline_eval sol (1 * 7)%Z) /\
    (forall j, 2 <= j -> coord q j = 0%Z).
Proof.
  assert (Hdim : dim_ (fitted_curve new path true)
                 <= dimension (Point_new (Point_t := Z * Z))) by (simpl; lia).
  assert (Hlen : length (interpolators_ (fitted_curve new path true))
                 = dim_ (fitted_curve new path true)) by reflexivity.
  destruct (eval_f_coordinates (PointLaws0 := grid_PointLaws)
              (fitted_curve new path true) 1%Z Hlen Hdim) as (q & Hq & Hlt & Hge).
  exists q. split; [exact Hq|]. split; [exact Hlt|].
  intros j Hj. rewrite (Hge j Hj). destruct j as [|[|j]]; [lia|lia|reflexivity].
Defined.

Section Frozen.
Context {FT Point_t : Type} `{!Real_t FT} `{!PointType FT Point_t} `{!Solver FT}.
Hypothesis dimension_pos : forall p : Point_t, 0 < dimension p.

Lemma step_first_solver_fitted (s s' : t FT) (c : call FT Point_t) out sol rest :
  interpolators_ s = sol :: rest -> SplineInterpolation.fitted sol = true ->
  step s c = Ok (s', out) -> s' = s.
Proof.
  intros Hints Hfit. destruct c as [l lv r rv le|pts c|u]; simpl.
  - unfold set_boundary. rewrite Hints. simpl. done.
  - destruct pts as [|p0 pts]; simpl; [by intros [= <- _]|].
    assert (Hset : set_points s (p0 :: pts) c = Err AssertionFailed).
    { rewrite set_points_cons. unfold refittable. rewrite Hints.
      pose proof (dimension_pos p0) as Hd.
      destruct (dimension p0) as [|d]; [lia|]. simpl. by rewrite Hfit. }
    unfold set_points in Hset. rewrite Hset. done.
  - destruct (eval_f s u); simpl; [by intros [= <- _]|done].
Qed.

Lemma exec_first_solver_fitted (cs : list (call FT Point_t)) (s s' : t FT) sol rest :
  interpolators_ s = sol :: rest -> SplineInterpolation.fitted sol = true ->
  exec s cs = Ok s' -> s' = s.
Proof.
  intros Hints Hfit. induction cs as [|c cs IH]; simpl; [by intros [= <-]|].
  destruct (step s c) as [[s1 out]|e] eqn:Hstep; simpl; [|done].
  apply (step_first_solver_fitted _ _ _ _ _ _ Hints Hfit) in Hstep. subst s1.
  exact IH.
Qed.

(** For a point type whose points have at least one coordinate: once
    [set_points] has returned on a non-empty sequence, every later sequence
    of calls that returns leaves the object exactly as that [set_points]
    left it; only [eval_f] and [set_points] on an empty sequence return. *)
Theorem fitted_object_frozen (s s' s'' : t FT) (points : list Point_t)
    (cubic_spline : bool) (cs : list (call FT Point_t)) :
  points <> [] ->
  set_points s points cubic_spline = Ok s' ->
  exec s' cs = Ok s'' ->
  s'' = s'.
Proof.
  intros Hne Hset. apply set_points_inv in Hset; [|done]. subst s'.
  pose proof (dimension_pos (nth 0 points Point_new)) as Hd.
  destruct (dimension (nth 0 points Point_new)) as [|d] eqn:Hdim; [lia|].
  eapply exec_first_solver_fitted.
  - unfold fitted_curve. cbn [interpolators_]. rewrite Hdim. reflexivity.
  - reflexivity.
Qed.

End Frozen.

Lemma fitted_object_frozen_witness :
  exec (fitted_curve new path true)
       [CallEvalF 1%Z; CallSetPoints [] false; CallEvalF 0%Z]
    = Ok (fitted_curve new path true) /\
  fitted_curve new path true = fitted_curve new path true.
Proof.
  split; [reflexivity|].
  assert (Hne : path <> []) by discriminate.
  exact (fitted_object_frozen (fun p : Z * Z => Nat.lt_0_succ 1)
           new (fitted_curve new path true) (fitted_curve new path true) path true
           [CallEvalF 1%Z; CallSetPoints [] false; CallEvalF 0%Z]
           Hne eq_refl eq_refl).
Defined.

Section Usage.
Context {FT Point_t : Type} `{!Real_t FT} `{!PointType FT Point_t} `{!Solver FT}.


End Usage.

